(** * Dolphin: the command-line transcription entry point

    A shallow embedding of [dolphin/transcribe.py]: the truth-value
    converter [str2bool], the model loader [load_model], the pipeline
    [transcribe] and the entry point [cli].  Python exceptions are an error
    sum, the observable calls (logging, file-system queries, calls into the
    collaborators) are recorded in a trace, and keyword arguments are finite
    maps from keyword names to Python values. *)

From stdpp Require Import gmap strings list fin_maps.
From Stdlib Require Import ZArith NArith Ascii String.

Local Open Scope string_scope.

(** ** Exceptions *)

(** The exceptions this file can see.  [Exception] is the generic failure
    of [load_model]; [TypeError f] is Python's refusal of a call of [f]
    that binds one keyword twice; [ValueError v] is [strtobool]'s complaint
    about the (lower-cased) value [v]; [Foreign cls msg] is anything raised
    inside a collaborator, which this file never catches. *)
Inductive exn : Type :=
  | Exception (msg : string)
  | TypeError (callee : string)
  | ValueError (val : string)
  | Foreign (cls msg : string).

(** ** [distutils.util.strtobool] and [str2bool] *)

Definition is_upper (c : ascii) : bool :=
  let n := N_of_ascii c in ((65 <=? n) && (n <=? 90))%N.

(** [str.lower] on one character. *)
Definition lower_ascii (c : ascii) : ascii :=
  if is_upper c then ascii_of_N (N_of_ascii c + 32) else c.

Fixpoint lower (s : string) : string :=
  match s with
  | EmptyString => EmptyString
  | String c s' => String (lower_ascii c) (lower s')
  end.

Definition truthy : list string := ["y"; "yes"; "t"; "true"; "on"; "1"].
Definition falsy : list string := ["n"; "no"; "f"; "false"; "off"; "0"].

(** The standard-library function behind [str2bool]:
    lower-case the value, look it up in the two tuples, fail otherwise. *)
Definition strtobool (val : string) : exn + Z :=
  let val := lower val in
  if decide (val ∈ truthy) then inr 1%Z
  else if decide (val ∈ falsy) then inr 0%Z
  else inl (ValueError val).

(** [bool(n)] for an integer. *)
Definition bool_of_int (n : Z) : bool := negb (n =? 0)%Z.

(** [def str2bool(value): return bool(strtobool(value))] *)
Definition str2bool (value : string) : exn + bool :=
  match strtobool value with
  | inl e => inl e
  | inr n => inr (bool_of_int n)
  end.

(** Equality of strings up to the case of ASCII letters, written without
    [lower]: two characters agree when they are equal or when one is an
    upper-case letter and the other the letter 32 code points above it. *)
Definition same_letter (a b : ascii) : bool :=
  Ascii.eqb a b
  || (is_upper a && (N_of_ascii a + 32 =? N_of_ascii b)%N)
  || (is_upper b && (N_of_ascii b + 32 =? N_of_ascii a)%N).

Fixpoint caseless_eq (s t : string) : bool :=
  match s, t with
  | EmptyString, EmptyString => true
  | String a s', String b t' => same_letter a b && caseless_eq s' t'
  | _, _ => false
  end.

(** A string that [lower] leaves alone: no upper-case letter in it. *)
Fixpoint no_upper (s : string) : bool :=
  match s with
  | EmptyString => true
  | String c s' => negb (is_upper c) && no_upper s'
  end.

(** ** Python values, keyword arguments and the trace *)

(** Logging levels used by this file. *)
Inductive level : Type := INFO | ERROR.

Section Program.

(** The collaborators' data: [pathlib.Path] objects, decoded audio and
    the loaded [DolphinSpeech2Text] object.  [Path s] is the constructor
    call on a string and [p </> s] is the [/] operator of [pathlib]. *)
Context {path waveform speech2text : Type}.
Variable Path : string → path.
Variable truediv : path → string → path.
Local Notation "p </> s" := (truediv p s) (at level 40, left associativity).

(** The Python values that travel through this file.  A float is kept as
    the bit pattern of its binary64 representation: it is only ever
    handed on, never computed with. *)
Inductive pyval : Type :=
  | VNone
  | VBool (b : bool)
  | VInt (n : Z)
  | VFloat (bits : Z)
  | VStr (s : string)
  | VPath (p : path)
  | VWaveform (a : waveform).

(** [None] or a string, as [argparse] leaves an optional [str] flag. *)
Definition opt_str (o : option string) : pyval :=
  match o with None => VNone | Some s => VStr s end.

(** The [Namespace] built by [parser_args]: one field per
    [add_argument], with the type its [type=] converter produces. *)
Record Namespace : Type := {
  audio : string;
  model : string;
  model_dir : path;
  lang_sym : option string;
  region_sym : option string;
  dtype : string;
  device : option string;
  normalize_length : bool;
  padding_speech : bool;
  predict_time : bool;
  beam_size : Z;
  maxlenratio : Z;
}.

(** The [model_dir] argument of [load_model]: annotated [Path], with the
    [isinstance] test also admitting what [Path(...)] accepts, a string. *)
Inductive dir_arg : Type :=
  | DirPath (p : path)
  | DirStr (s : string).

(** Modelled from the spec: the result record [{text, text_nospecial,
    ...}] returned by the call of the model object, whose class
    [dolphin.model.DolphinSpeech2Text] is not part of the sources. *)
Record DolphinResult : Type := {
  text : string;
  text_nospecial : string;
  others : gmap string pyval;
}.

(** What a run does that can be observed from outside, in order.  The
    events are the calls this file makes: [Log] is a call of
    [logger.error] or [logger.info] on the named logger, and whether a
    record comes of it is for the levels set by [BasicConfig] and
    [SetLevel]. *)
Inductive event : Type :=
  | BasicConfig (lvl : level)
  | SetLevel (logger : string) (lvl : level)
  | Log (logger : string) (lvl : level) (msg : string)
  | ParseArgs
  | PathExists (p : path)
  | Construct (kw : gmap string pyval)
  | LoadAudio (file : string)
  | Invoke (m : speech2text) (kw : gmap string pyval).

(** Modelled from the spec: the environment of a run.  [parse_args] is
    what [argparse] makes of the command line; [cuda_is_available] is
    [torch.cuda.is_available()]; [path_exists] is the file system seen
    through [Path.exists], which answers [True] or [False] or raises the
    [OSError] of a path the system refuses (a name too long);
    [DolphinSpeech2Text], [load_audio] and [model_call] are the
    collaborators [dolphin.model] and [dolphin.audio], to which malformed
    audio, device errors and decoding failures are delegated: each may
    raise instead of returning. *)
Record World : Type := {
  parse_args : exn + Namespace;
  cuda_is_available : bool;
  path_exists : path → exn + bool;
  DolphinSpeech2Text : gmap string pyval → exn + speech2text;
  load_audio : string → exn + waveform;
  model_call : speech2text → gmap string pyval → exn + DolphinResult;
}.

(** *** The monad: an exception or a value, and the events so far *)

Definition M (A : Type) : Type := (exn + A) * list event.

#[export] Instance M_ret : MRet M := λ A a, (inr a, []).

#[export] Instance M_bind : MBind M := λ A B f m,
  match m with
  | (inl e, t) => (inl e, t)
  | (inr a, t) => let (r, t') := f a in (r, (t ++ t')%list)
  end.

Definition raise {A} (e : exn) : M A := (inl e, []).

Definition emit (ev : event) : M unit := (inr tt, [ev]).

(** A call that leaves the file: the event is recorded, the outcome is
    the collaborator's. *)
Definition foreign {A} (ev : event) (outcome : exn + A) : M A :=
  (outcome, [ev]).

Definition outcome {A} (m : M A) : exn + A := m.1.
Definition trace {A} (m : M A) : list event := m.2.

Definition raises {A} (m : M A) : Prop := ∃ e, outcome m = inl e.
Definition returns {A} (m : M A) (a : A) : Prop := outcome m = inr a.

(** The keyword maps of the constructor calls and of the model calls in
    a trace, in order. *)
Definition constructions (t : list event) : list (gmap string pyval) :=
  omap (λ ev, match ev with Construct kw => Some kw | _ => None end) t.

Definition invocations (t : list event)
    : list (speech2text * gmap string pyval) :=
  omap (λ ev, match ev with Invoke m kw => Some (m, kw) | _ => None end) t.

(** *** Calls with keyword arguments *)

Definition has_key (kwargs : gmap string pyval) (k : string) : bool :=
  match kwargs !! k with Some _ => true | None => false end.

(** [f(k1=v1, ..., kn=vn)]: the callee receives the keywords written
    out. *)
Definition keywords (explicit : list (string * pyval)) : gmap string pyval :=
  list_to_map explicit.

(** [f(k1=v1, ..., **kwargs)]: Python refuses the call with a
    [TypeError] when [kwargs] repeats one of the keywords written out;
    otherwise [f] receives the union. *)
Definition bind_keywords (callee : string)
    (explicit : list (string * pyval)) (kwargs : gmap string pyval)
    : M (gmap string pyval) :=
  if existsb (λ kv, has_key kwargs kv.1) explicit
  then raise (TypeError callee)
  else mret (keywords explicit ∪ kwargs).

(** *** The logger named "dolphin" *)

Definition logger : string := "dolphin".
Definition logger_error (msg : string) : M unit := emit (Log logger ERROR msg).
Definition logger_info (msg : string) : M unit := emit (Log logger INFO msg).

Section Run.

Variable w : World.

(** *** [parser_args] *)

(** The parser is declared with the fields of [Namespace]; the parse
    itself is [argparse]'s. *)
Definition parser_args : M Namespace := foreign ParseArgs (parse_args w).

(** *** [load_model] *)

(** The device default, the [isinstance] test, the two paths, the
    existence check with its log line and its [raise], and the
    constructor call with the extra keywords spread after the five written
    out.  [kwargs] is the dictionary of the [**kwargs] parameter; Python
    binds a [device] keyword to the parameter of that name, never to it. *)

Definition load_model (model_name : string) (model_dir : dir_arg)
    (device : pyval) (kwargs : gmap string pyval) : M speech2text :=
  let device :=
    match device with
    | VNone => VStr (if cuda_is_available w then "cuda" else "cpu")
    | _ => device
    end in
  let model_dir :=
    match model_dir with
    | DirPath p => p
    | DirStr s => Path s
    end in
  let model_file := model_dir </> (model_name ++ ".pt") in
  let train_cfg := model_dir </> "config.yaml" in
  found ← foreign (PathExists model_file) (path_exists w model_file);
  (if negb found then
     logger_error ("model " ++ model_name ++ " not found.");;
     raise (Exception ("model " ++ model_name
                       ++ " not found, please download the model first."))
   else mret tt);;
  kw ← bind_keywords "DolphinSpeech2Text"
         [("s2t_train_config", VPath train_cfg);
          ("s2t_model_file", VPath model_file);
          ("device", device);
          ("task_sym", default (VStr "<asr>") (kwargs !! "task_sym"));
          ("predict_time", default (VBool true) (kwargs !! "predict_time"))]
         kwargs;
  model ← foreign (Construct kw) (DolphinSpeech2Text w kw);
  mret model.

(** *** [transcribe] *)

(** No extra keyword goes to [load_model]; the model is called with five
    keywords; the [text] of the result is logged and the result returned. *)

Definition transcribe (args : Namespace) : M DolphinResult :=
  let model_name := model args in
  model ← load_model model_name (DirPath (model_dir args))
            (opt_str (device args)) ∅;
  waveform ← foreign (LoadAudio (audio args)) (load_audio w (audio args));
  let kw := keywords
              [("speech", VWaveform waveform);
               ("lang_sym", opt_str (lang_sym args));
               ("region_sym", opt_str (region_sym args));
               ("predict_time", VBool (predict_time args));
               ("padding_speech", VBool (padding_speech args))] in
  result ← foreign (Invoke model kw) (model_call w model kw);
  logger_info ("decode result, text: " ++ text result);;
  mret result.

(** *** [cli] *)

(** The logging set-up, the parse, the transcription; the result of
    [transcribe] is dropped. *)

Definition cli : M unit :=
  emit (BasicConfig INFO);;
  emit (SetLevel "espnet" ERROR);;
  emit (SetLevel "root" ERROR);;
  emit (SetLevel "dolphin" INFO);;
  args ← parser_args;
  transcribe args;;
  mret tt.

End Run.

(** *** Vocabulary of the statements *)

(** The path [{model_dir}/{model_name}.pt] and its sibling. *)
Definition as_path (d : dir_arg) : path :=
  match d with DirPath p => p | DirStr s => Path s end.

Definition checkpoint (model_name : string) (d : dir_arg) : path :=
  as_path d </> (model_name ++ ".pt").

Definition train_config (d : dir_arg) : path :=
  as_path d </> "config.yaml".

(** The keywords [load_model] writes out in its constructor call. *)
Definition ctor_keywords : list string :=
  ["s2t_train_config"; "s2t_model_file"; "device"; "task_sym"; "predict_time"].

Definition keyword_clash (kwargs : gmap string pyval) : bool :=
  existsb (has_key kwargs) ctor_keywords.

(** The device handed to the constructor. *)
Definition chosen_device (w : World) (device : pyval) : pyval :=
  match device with
  | VNone => VStr (if cuda_is_available w then "cuda" else "cpu")
  | _ => device
  end.

(** The keywords of the constructor call when nothing clashes. *)
Definition ctor_call (w : World) (model_name : string) (d : dir_arg)
    (device : pyval) (kwargs : gmap string pyval) : gmap string pyval :=
  list_to_map
    [("s2t_train_config", VPath (train_config d));
     ("s2t_model_file", VPath (checkpoint model_name d));
     ("device", chosen_device w device);
     ("task_sym", VStr "<asr>");
     ("predict_time", VBool true)] ∪ kwargs.

(** The keywords of the model call in [transcribe]. *)
Definition call_keywords (args : Namespace) (wav : waveform)
    : gmap string pyval :=
  list_to_map
    [("speech", VWaveform wav);
     ("lang_sym", opt_str (lang_sym args));
     ("region_sym", opt_str (region_sym args));
     ("predict_time", VBool (predict_time args));
     ("padding_speech", VBool (padding_speech args))].

(** The constructor keywords of the [load_model] call in [transcribe]. *)
Definition transcribe_ctor_call (w : World) (args : Namespace)
    : gmap string pyval :=
  ctor_call w (model args) (DirPath (model_dir args))
    (opt_str (device args)) ∅.

(** The transcript line written by [transcribe]. *)
Definition transcript_line (r : DolphinResult) : event :=
  Log "dolphin" INFO ("decode result, text: " ++ text r).

(** The ten inference flags with their parsed values. *)
Definition inference_flags (args : Namespace) : list (string * pyval) :=
  [("model", VStr (model args));
   ("lang_sym", opt_str (lang_sym args));
   ("region_sym", opt_str (region_sym args));
   ("dtype", VStr (dtype args));
   ("device", opt_str (device args));
   ("normalize_length", VBool (normalize_length args));
   ("padding_speech", VBool (padding_speech args));
   ("predict_time", VBool (predict_time args));
   ("beam_size", VInt (beam_size args));
   ("maxlenratio", VFloat (maxlenratio args))].

(** A value reaches a collaborator in a run when some keyword of a
    constructor call or of a model call carries it. *)
Definition passed_through (t : list event) (v : pyval) : Prop :=
  ∃ kw k, (kw ∈ constructions t ∨ ∃ m, (m, kw) ∈ invocations t)
          ∧ kw !! k = Some v.

End Program.

(** ** The command line of [parser_args] *)

(** The eleven options declared by [parser_args], each taking one value. *)
Inductive flag : Type :=
  | Model
  | ModelDir
  | LangSym
  | RegionSym
  | Dtype
  | Device
  | NormalizeLength
  | PaddingSpeech
  | PredictTime
  | BeamSize
  | Maxlenratio.

#[global] Instance flag_eq_dec : EqDecision flag.
Proof. solve_decision. Defined.

(** What stands on a command line next to the positional arguments: one
    of the declared options with its value, or the [-h]/[--help] that
    [argparse.ArgumentParser()] adds to every parser. *)
Inductive argument : Type :=
  | Value (f : flag) (v : string)
  | Help.

#[global] Instance argument_eq_dec : EqDecision argument.
Proof. solve_decision. Defined.

(** How [argparse] ends a parse it cannot complete: a usage message and
    [sys.exit(2)]. *)
Definition usage_error : exn := Foreign "SystemExit" "2".

(** How [argparse] ends a parse at [-h]/[--help]: the help text and
    [sys.exit(0)]. *)
Definition help_exit : exn := Foreign "SystemExit" "0".

(** The values given to one option, in the order of the command line. *)
Definition occurrences (f : flag) (given : list argument) : list string :=
  omap (λ a : argument,
          match a with
          | Value g v => if decide (g = f) then Some v else None
          | Help => None
          end)
       given.

(** The [type=] converter applied to each value of an option; a converter
    that raises ends the parse. *)
Fixpoint convert_each {A} (conv : string → exn + A) (values : list string)
    : exn + list A :=
  match values with
  | [] => inr []
  | v :: values' =>
      match conv v with
      | inl _ => inl usage_error
      | inr a =>
          match convert_each conv values' with
          | inl e => inl e
          | inr l => inr (a :: l)
          end
      end
  end.

Section CommandLine.

Context {path : Type}.
Variable Path : string → path.

(** Python's [int] and [float] on a string; a float is its bit pattern. *)
Variable int : string → exn + Z.
Variable float : string → exn + Z.

(** Whether the [type=] converter of an option refuses a value. *)
Definition refused (f : flag) (v : string) : bool :=
  match f with
  | NormalizeLength | PaddingSpeech | PredictTime =>
      match str2bool v with inl _ => true | inr _ => false end
  | BeamSize => match int v with inl _ => true | inr _ => false end
  | Maxlenratio => match float v with inl _ => true | inr _ => false end
  | Model | ModelDir | LangSym | RegionSym | Dtype | Device => false
  end.

(** [argparse] acts on the options from left to right: the first refused
    value ends the parse with the usage error, the first [--help] ends it
    with the help text, whichever comes first. *)
Fixpoint interrupted (given : list argument) : option exn :=
  match given with
  | [] => None
  | Help :: _ => Some help_exit
  | Value f v :: given' =>
      if refused f v then Some usage_error else interrupted given'
  end.

(** [parser.parse_args()] for the parser declared in [parser_args], once
    [argparse] has split the command line into its positional arguments
    and, in their order, the options with their values and the requests
    for help: a refused value or [--help] ends the parse where it stands;
    otherwise there is to be one positional [audio] and [--model_dir],
    required, is turned into a [Path]; the options of type [str] are kept
    as they are and those of type [str2bool], [int] and [float] converted;
    the last value of an option wins and an option not given has its
    [default]. *)
Definition parse_command_line (positionals : list string)
    (given : list argument) : exn + @Namespace path :=
  match interrupted given with
  | Some e => inl e
  | None =>
      match positionals,
            last (occurrences ModelDir given),
            convert_each str2bool (occurrences NormalizeLength given),
            convert_each str2bool (occurrences PaddingSpeech given),
            convert_each str2bool (occurrences PredictTime given),
            convert_each int (occurrences BeamSize given),
            convert_each float (occurrences Maxlenratio given)
      with
      | [a], Some d, inr nl, inr ps, inr pt, inr bs, inr ml =>
          inr {| audio := a;
                 model := default "small" (last (occurrences Model given));
                 model_dir := Path d;
                 lang_sym := last (occurrences LangSym given);
                 region_sym := last (occurrences RegionSym given);
                 dtype := default "float32" (last (occurrences Dtype given));
                 device := last (occurrences Device given);
                 normalize_length := default false (last nl);
                 padding_speech := default true (last ps);
                 predict_time := default true (last pt);
                 beam_size := default 5%Z (last bs);
                 maxlenratio := default 0%Z (last ml) |}
      | _, _, _, _, _, _, _ => inl usage_error
      end
  end.

End CommandLine.

(** ** A small environment to run the program in *)

Module Sample.

(** Paths are strings and [/] joins with a slash; a waveform is its list
    of samples; a loaded model is known by the device it sits on. *)
Definition Path (s : string) : string := s.
Definition truediv (p s : string) : string := p ++ "/" ++ s.

Definition value : Type := @pyval string (list Z).
Definition args_t : Type := @Namespace string.
Definition world_t : Type := @World string (list Z) string.

(** What the loader and the model hand back. *)
Definition samples : list Z := [0; 3; -2]%Z.
Definition answer : @DolphinResult string (list Z) :=
  {| text := "<zh><CN><asr><0.00> hello<1.20>";
     text_nospecial := "hello";
     others := ∅ |}.

(** The collaborators over a file system given by the list of files in
    it, which refuses a path of more than 255 characters: the constructor
    needs its configuration file, the loader needs the audio file, the
    model answers every call. *)
Definition world (files : list string) (cuda : bool)
    (argv : exn + args_t) : world_t :=
  {| parse_args := argv;
     cuda_is_available := cuda;
     path_exists := λ p,
       if (255 <? String.length p)%nat
       then inl (Foreign "OSError" "File name too long")
       else inr (bool_decide (p ∈ files));
     DolphinSpeech2Text := λ kw,
       match kw !! "s2t_train_config", kw !! "device" with
       | Some (VPath cfg), Some (VStr dev) =>
           if bool_decide (cfg ∈ files) then inr dev
           else inl (Foreign "FileNotFoundError" cfg)
       | _, _ => inl (Foreign "TypeError" "DolphinSpeech2Text")
       end;
     load_audio := λ f,
       if bool_decide (f ∈ files) then inr samples
       else inl (Foreign "FileNotFoundError" f);
     model_call := λ _ _, inr answer |}.

(** [dolphin a.wav --model_dir models --lang_sym <zh> --region_sym <CN>],
    every other flag at its default. *)
Definition args : args_t :=
  {| audio := "a.wav";
     model := "small";
     model_dir := Path "models";
     lang_sym := Some "<zh>";
     region_sym := Some "<CN>";
     dtype := "float32";
     device := None;
     normalize_length := false;
     padding_speech := true;
     predict_time := true;
     beam_size := 5;
     maxlenratio := 0 |}.

(** The same with [--device cuda:1]. *)
Definition args_on_gpu : args_t :=
  {| audio := "a.wav";
     model := "small";
     model_dir := Path "models";
     lang_sym := Some "<zh>";
     region_sym := Some "<CN>";
     dtype := "float32";
     device := Some "cuda:1";
     normalize_length := false;
     padding_speech := true;
     predict_time := true;
     beam_size := 5;
     maxlenratio := 0 |}.

(** A complete installation, one without [config.yaml], one without the
    checkpoint, and a complete one where the audio file is absent. *)
Definition installed : list string :=
  ["models/small.pt"; "models/config.yaml"; "a.wav"].
Definition no_config : list string := ["models/small.pt"; "a.wav"].
Definition no_checkpoint : list string := ["models/config.yaml"; "a.wav"].
Definition no_audio : list string := ["models/small.pt"; "models/config.yaml"].

(** The four file systems, on a machine without GPU. *)
Definition complete : world_t := world installed false (inr args).
Definition config_missing : world_t := world no_config false (inr args).
Definition checkpoint_missing : world_t :=
  world no_checkpoint false (inr args).
Definition audio_missing : world_t := world no_audio false (inr args).

Abbreviation load_model := (load_model Path truediv).
Abbreviation transcribe := (transcribe Path truediv).
Abbreviation cli := (cli Path truediv).

(** Numbers on the command line: an [int] is a run of decimal digits, and
    the one [float] known here is [0.5]. *)
Definition digit (c : ascii) : option Z :=
  let n := Z.of_N (N_of_ascii c) in
  if ((48 <=? n) && (n <=? 57))%Z then Some (n - 48)%Z else None.

Fixpoint digits (acc : Z) (s : string) : option Z :=
  match s with
  | EmptyString => Some acc
  | String c s' =>
      match digit c with
      | Some d => digits (10 * acc + d) s'
      | None => None
      end
  end.

Definition int (s : string) : exn + Z :=
  match s with
  | EmptyString => inl (ValueError s)
  | _ => match digits 0 s with Some n => inr n | None => inl (ValueError s) end
  end.

Definition float (s : string) : exn + Z :=
  if decide (s = "0.5") then inr 4602678819172646912%Z
  else inl (ValueError s).

Abbreviation parse_command_line :=
  (parse_command_line (path := string) Path int float).

(** The complete installation started as
    [dolphin a.wav --model_dir models] followed by more options. *)
Definition started (more : list argument) : world_t :=
  world installed false
    (parse_command_line ["a.wav"] (Value ModelDir "models" :: more)).

(** [dolphin a.wav --model_dir models --predict_time yes --beam_size 10
    --predict_time No --maxlenratio 0.5] and what the parser makes of it. *)
Definition more_options : list argument :=
  [Value PredictTime "yes"; Value BeamSize "10"; Value PredictTime "No";
   Value Maxlenratio "0.5"].

Definition command_line : list argument :=
  Value ModelDir "models" :: more_options.

Definition parsed : args_t :=
  {| audio := "a.wav";
     model := "small";
     model_dir := Path "models";
     lang_sym := None;
     region_sym := None;
     dtype := "float32";
     device := None;
     normalize_length := false;
     padding_speech := true;
     predict_time := false;
     beam_size := 10;
     maxlenratio := 4602678819172646912 |}.

(** A model name of 260 letters, more than the file system takes. *)
Definition long_name : string :=
  String.concat "" (replicate 26 "abcdefghij").

(** A call of [load_model] with an extra keyword. *)
Definition with_beam_size : gmap string value := {["beam_size" := VInt 10]}.

End Sample.

(** Evaluation of a closed run, and the search of an event in its trace. *)
Ltac evaluate := vm_compute; reflexivity.
Ltac find_event :=
  vm_compute; repeat first [apply list_elem_of_here | apply list_elem_of_further].

(** ** The truth values of [str2bool] *)

Section Str2boolFacts.

Lemma lower_ascii_spec (a b : ascii) :
  is_upper b = false → same_letter a b = true ↔ lower_ascii a = b.
Proof.
  intros Hb. unfold same_letter, lower_ascii. rewrite Hb. simpl.
  rewrite orb_false_r.
  destruct (is_upper a) eqn:Ha; simpl.
  - assert (Hne : Ascii.eqb a b = false).
    { apply Ascii.eqb_neq. intros ->. congruence. }
    rewrite Hne. simpl.
    unfold is_upper in Ha. apply andb_true_iff in Ha as [H1 H2].
    apply N.leb_le in H1, H2.
    rewrite N.eqb_eq. split.
    + intros E. rewrite E. apply ascii_N_embedding.
    + intros <-. rewrite N_ascii_embedding; [done | lia].
  - rewrite orb_false_r. apply Ascii.eqb_eq.
Qed.

Lemma caseless_lower (s w : string) :
  no_upper w = true → caseless_eq s w = true ↔ lower s = w.
Proof.
  revert w. induction s as [|a s IH]; intros [|b w] Hw; simpl in *;
    try (split; [discriminate | congruence]); [done |].
  apply andb_true_iff in Hw as [Hb Hw]. apply negb_true_iff in Hb.
  rewrite andb_true_iff, (lower_ascii_spec a b Hb), (IH w Hw).
  split; [intros [-> ->]; done | intros [= -> ->]; done].
Qed.

Lemma truthy_no_upper w : w ∈ truthy → no_upper w = true.
Proof.
  unfold truthy. rewrite !elem_of_cons, elem_of_nil.
  intros [->|[->|[->|[->|[->|[->|[]]]]]]]; reflexivity.
Qed.

Lemma falsy_no_upper w : w ∈ falsy → no_upper w = true.
Proof.
  unfold falsy. rewrite !elem_of_cons, elem_of_nil.
  intros [->|[->|[->|[->|[->|[->|[]]]]]]]; reflexivity.
Qed.

Lemma truthy_falsy_disjoint w : w ∈ truthy → w ∈ falsy → False.
Proof.
  unfold truthy, falsy. rewrite !elem_of_cons, !elem_of_nil.
  intros [->|[->|[->|[->|[->|[->|[]]]]]]]; intros H;
    repeat (destruct H as [H|H]; [discriminate H|]); exact H.
Qed.

(** Membership after lower-casing is caseless membership. *)
Lemma lower_in_truthy s :
  lower s ∈ truthy ↔ ∃ w, w ∈ truthy ∧ caseless_eq s w = true.
Proof.
  split.
  - intros H. exists (lower s). split; [done |].
    apply caseless_lower; [by apply truthy_no_upper | done].
  - intros (w & Hw & E).
    apply caseless_lower in E; [by subst | by apply truthy_no_upper].
Qed.

Lemma lower_in_falsy s :
  lower s ∈ falsy ↔ ∃ w, w ∈ falsy ∧ caseless_eq s w = true.
Proof.
  split.
  - intros H. exists (lower s). split; [done |].
    apply caseless_lower; [by apply falsy_no_upper | done].
  - intros (w & Hw & E).
    apply caseless_lower in E; [by subst | by apply falsy_no_upper].
Qed.

(** C9: [str2bool] returns [True] exactly on the strings "y", "yes",
    "t", "true", "on" and "1" in any mix of cases, [False] exactly on
    "n", "no", "f", "false", "off" and "0" in any mix of cases, and
    raises [ValueError] on every other string. *)
Theorem str2bool_truth_values (s : string) :
  (str2bool s = inr true
   ↔ ∃ w, w ∈ ["y"; "yes"; "t"; "true"; "on"; "1"]
          ∧ caseless_eq s w = true)
  ∧ (str2bool s = inr false
     ↔ ∃ w, w ∈ ["n"; "no"; "f"; "false"; "off"; "0"]
            ∧ caseless_eq s w = true)
  ∧ ((∃ v, str2bool s = inl (ValueError v))
     ↔ ∀ w, w ∈ ["y"; "yes"; "t"; "true"; "on"; "1";
                 "n"; "no"; "f"; "false"; "off"; "0"]
            → caseless_eq s w = false).
Proof.
  change ["y"; "yes"; "t"; "true"; "on"; "1";
          "n"; "no"; "f"; "false"; "off"; "0"] with (truthy ++ falsy)%list.
  change ["y"; "yes"; "t"; "true"; "on"; "1"] with truthy.
  change ["n"; "no"; "f"; "false"; "off"; "0"] with falsy.
  rewrite <- lower_in_truthy, <- lower_in_falsy.
  assert (Hnone : (∀ w, w ∈ (truthy ++ falsy)%list → caseless_eq s w = false)
                  ↔ ((lower s ∉ truthy) ∧ (lower s ∉ falsy))).
  { split.
    - intros H. split; intros Hin.
      + apply lower_in_truthy in Hin as (w & Hw & E).
        rewrite H in E; [done | apply elem_of_app; by left].
      + apply lower_in_falsy in Hin as (w & Hw & E).
        rewrite H in E; [done | apply elem_of_app; by right].
    - intros [Ht Hf] w [Hw|Hw]%elem_of_app;
        destruct (caseless_eq s w) eqn:E; try done; exfalso.
      + apply Ht, lower_in_truthy. eauto.
      + apply Hf, lower_in_falsy. eauto. }
  rewrite Hnone. unfold str2bool, strtobool.
  destruct (decide (lower s ∈ truthy)) as [Ht|Ht].
  - simpl. split; [done|]. split.
    + split; [done|]. intros Hf. destruct (truthy_falsy_disjoint _ Ht Hf).
    + split; [intros [v [=]] | intros [? _]; done].
  - destruct (decide (lower s ∈ falsy)) as [Hf|Hf]; simpl.
    + split; [done|]. split; [done|].
      split; [intros [v [=]] | intros [_ ?]; done].
    + split; [done|]. split; [done|]. split; [done | eauto].
Qed.

End Str2boolFacts.


(** ** The loader *)

Section LoaderFacts.

Context {path waveform speech2text : Type}.
Variable Path : string → path.
Variable truediv : path → string → path.

#[local] Abbreviation World := (@World path waveform speech2text).
#[local] Abbreviation pyval := (@pyval path waveform).
#[local] Abbreviation load_model := (load_model Path truediv).
#[local] Abbreviation checkpoint := (checkpoint Path truediv).
#[local] Abbreviation train_config := (train_config Path truediv).
#[local] Abbreviation ctor_call := (ctor_call Path truediv).

Lemma keyword_clash_false (kwargs : gmap string pyval) k :
  keyword_clash kwargs = false → k ∈ ctor_keywords → kwargs !! k = None.
Proof.
  unfold keyword_clash, ctor_keywords. simpl.
  rewrite !orb_false_iff. unfold has_key.
  rewrite !elem_of_cons, elem_of_nil.
  intros (H1 & H2 & H3 & H4 & H5 & _) [->|[->|[->|[->|[->|[]]]]]].
  all: match goal with |- ?o = None => destruct o; done end.
Qed.

(** [load_model], case by case. *)
Lemma load_model_check_raises (w : World) model_name d device kwargs e :
  path_exists w (checkpoint model_name d) = inl e →
  load_model w model_name d device kwargs
  = (inl e, [PathExists (checkpoint model_name d)]).
Proof.
  intros H. unfold load_model, checkpoint, as_path in *.
  destruct d; simpl in *; rewrite H; reflexivity.
Qed.

Lemma load_model_missing (w : World) model_name d device kwargs :
  path_exists w (checkpoint model_name d) = inr false →
  load_model w model_name d device kwargs
  = (inl (Exception ("model " ++ model_name
                     ++ " not found, please download the model first.")),
     [PathExists (checkpoint model_name d);
      Log "dolphin" ERROR ("model " ++ model_name ++ " not found.")]).
Proof.
  intros H. unfold load_model, checkpoint, as_path in *.
  destruct d; simpl in *; rewrite H; reflexivity.
Qed.

Lemma load_model_clash (w : World) model_name d device kwargs :
  path_exists w (checkpoint model_name d) = inr true →
  keyword_clash kwargs = true →
  load_model w model_name d device kwargs
  = (inl (TypeError "DolphinSpeech2Text"),
     [PathExists (checkpoint model_name d)]).
Proof.
  intros H Hc. unfold load_model, checkpoint, as_path in *.
  unfold keyword_clash, ctor_keywords in Hc. simpl in Hc.
  destruct d; simpl in *; rewrite H; simpl;
    unfold bind_keywords; simpl; rewrite Hc; reflexivity.
Qed.

Lemma load_model_found (w : World) model_name d device kwargs :
  path_exists w (checkpoint model_name d) = inr true →
  keyword_clash kwargs = false →
  load_model w model_name d device kwargs
  = (DolphinSpeech2Text w (ctor_call w model_name d device kwargs),
     [PathExists (checkpoint model_name d);
      Construct (ctor_call w model_name d device kwargs)]).
Proof.
  intros H Hc.
  assert (Ht : kwargs !! "task_sym" = None).
  { apply keyword_clash_false; [done | unfold ctor_keywords; set_solver]. }
  assert (Hp : kwargs !! "predict_time" = None).
  { apply keyword_clash_false; [done | unfold ctor_keywords; set_solver]. }
  unfold load_model, ctor_call, checkpoint,
    train_config, as_path, chosen_device in *.
  unfold keyword_clash, ctor_keywords in Hc. simpl in Hc.
  destruct d; simpl in *; rewrite H; simpl;
    unfold bind_keywords, keywords; simpl; rewrite Hc, Ht, Hp; simpl;
    destruct (DolphinSpeech2Text w _); reflexivity.
Qed.

(** The constructor is reached only past both checks, and then with the
    keywords of [ctor_call]. *)
Lemma load_model_constructs (w : World) model_name d device kwargs kw :
  Construct kw ∈ trace (load_model w model_name d device kwargs) →
  path_exists w (checkpoint model_name d) = inr true
  ∧ keyword_clash kwargs = false
  ∧ kw = ctor_call w model_name d device kwargs.
Proof.
  destruct (path_exists w (checkpoint model_name d)) as [e|[|]] eqn:He.
  - rewrite (load_model_check_raises _ _ _ _ _ e) by done. unfold trace.
    simpl. rewrite list_elem_of_singleton. discriminate.
  - destruct (keyword_clash kwargs) eqn:Hc.
    + rewrite load_model_clash by done. unfold trace. simpl.
      rewrite list_elem_of_singleton. discriminate.
    + rewrite load_model_found by done. unfold trace. simpl.
      rewrite !elem_of_cons, elem_of_nil.
      intros [H|[H|[]]]; [discriminate H | by injection H as ->].
  - rewrite load_model_missing by done. unfold trace. simpl.
    rewrite !elem_of_cons, elem_of_nil.
    intros [H|[H|[]]]; discriminate H.
Qed.

Lemma ctor_call_model_file (w : World) model_name d device kwargs :
  ctor_call w model_name d device kwargs !! "s2t_model_file"
  = Some (VPath (checkpoint model_name d)).
Proof. unfold ctor_call. by apply lookup_union_Some_l. Qed.

Lemma ctor_call_train_config (w : World) model_name d device kwargs :
  ctor_call w model_name d device kwargs !! "s2t_train_config"
  = Some (VPath (train_config d)).
Proof. unfold ctor_call. by apply lookup_union_Some_l. Qed.

Lemma ctor_call_device (w : World) model_name d device kwargs :
  ctor_call w model_name d device kwargs !! "device"
  = Some (chosen_device w device).
Proof. unfold ctor_call. by apply lookup_union_Some_l. Qed.

(** C3: whenever [load_model] calls the constructor, the keyword
    [s2t_model_file] is the path [{model_dir}/{model_name}.pt] and the
    keyword [s2t_train_config] is the path [{model_dir}/config.yaml]. *)
Theorem load_model_passes_resolved_paths
    (w : World) model_name d device kwargs kw :
  Construct kw ∈ trace (load_model w model_name d device kwargs) →
  kw !! "s2t_model_file"
    = Some (VPath (truediv (as_path Path d) (model_name ++ ".pt")))
  ∧ kw !! "s2t_train_config"
    = Some (VPath (truediv (as_path Path d) "config.yaml")).
Proof.
  intros (_ & _ & ->)%load_model_constructs. split.
  - apply ctor_call_model_file.
  - apply ctor_call_train_config.
Qed.

(** C4: [load_model] works with one device, [used]: the argument itself
    when it is not [None], and for [None] "cuda" when a CUDA GPU is
    available and "cpu" otherwise.  A call with [None] is the call with
    that device written out; whenever the checkpoint is found and no
    keyword is repeated the constructor is called, once, with [used] as
    its [device]; and no constructor call carries another device. *)
Theorem load_model_device_selection (w : World) model_name d device kwargs :
  ∃ used : pyval,
    (device ≠ VNone → used = device)
    ∧ (device = VNone →
       used = VStr (if cuda_is_available w then "cuda" else "cpu"))
    ∧ load_model w model_name d device kwargs
      = load_model w model_name d used kwargs
    ∧ (path_exists w (checkpoint model_name d) = inr true →
       keyword_clash kwargs = false →
       ∃ kw, load_model w model_name d device kwargs
             = (DolphinSpeech2Text w kw,
                [PathExists (checkpoint model_name d); Construct kw])
             ∧ kw !! "device" = Some used)
    ∧ (∀ kw, Construct kw ∈ trace (load_model w model_name d device kwargs) →
             kw !! "device" = Some used).
Proof.
  exists (chosen_device w device). split; [|split; [|split; [|split]]].
  - intros Hd. by destruct device.
  - by intros ->.
  - unfold load_model, chosen_device.
    destruct device; reflexivity.
  - intros He Hc. exists (ctor_call w model_name d device kwargs).
    split; [by apply load_model_found | apply ctor_call_device].
  - intros kw (_ & _ & ->)%load_model_constructs. apply ctor_call_device.
Qed.

(** C10: a string [s] for [model_dir] and the [Path] made of [s] give the
    same run, outcome and events alike: both begin with the existence
    check of [Path(s) / (model_name + ".pt")], and a constructor call in
    either carries the two paths resolved from [Path(s)]. *)
Theorem load_model_str_or_path (w : World) model_name s device kwargs :
  load_model w model_name (DirStr s) device kwargs
  = load_model w model_name (DirPath (Path s)) device kwargs
  ∧ head (trace (load_model w model_name (DirStr s) device kwargs))
    = Some (PathExists (truediv (Path s) (model_name ++ ".pt")))
  ∧ (∀ kw,
       Construct kw
       ∈ trace (load_model w model_name (DirPath (Path s)) device kwargs) →
       kw !! "s2t_model_file"
         = Some (VPath (truediv (Path s) (model_name ++ ".pt")))
       ∧ kw !! "s2t_train_config"
         = Some (VPath (truediv (Path s) "config.yaml"))).
Proof.
  split; [reflexivity|]. split.
  - destruct (path_exists w (checkpoint model_name (DirStr s)))
      as [e|[|]] eqn:He.
    + by rewrite (load_model_check_raises _ _ _ _ _ e).
    + destruct (keyword_clash kwargs) eqn:Hc.
      * by rewrite load_model_clash.
      * by rewrite load_model_found.
    + by rewrite load_model_missing.
  - intros kw (_ & _ & ->)%load_model_constructs. split.
    + apply ctor_call_model_file.
    + apply ctor_call_train_config.
Qed.

(** C8 (amended): with [task_sym] or [predict_time] among the extra
    keywords, [load_model] raises a [TypeError] without calling the
    constructor when the existence check finds the checkpoint file; when
    the check answers that the file is not there, the not-found exception
    comes first; when the check itself raises, its exception does.  The
    constructor is called in none of the three. *)
Theorem load_model_repeated_keyword (w : World) model_name d device kwargs :
  is_Some (kwargs !! "task_sym") ∨ is_Some (kwargs !! "predict_time") →
  (path_exists w (checkpoint model_name d) = inr true →
     outcome (load_model w model_name d device kwargs)
       = inl (TypeError "DolphinSpeech2Text")
     ∧ constructions (trace (load_model w model_name d device kwargs)) = [])
  ∧ (path_exists w (checkpoint model_name d) = inr false →
     outcome (load_model w model_name d device kwargs)
       = inl (Exception ("model " ++ model_name
                         ++ " not found, please download the model first."))
     ∧ constructions (trace (load_model w model_name d device kwargs)) = [])
  ∧ (∀ e, path_exists w (checkpoint model_name d) = inl e →
     outcome (load_model w model_name d device kwargs) = inl e
     ∧ constructions (trace (load_model w model_name d device kwargs)) = []).
Proof.
  intros Hk. split; [|split]; [intros He | intros He | intros e He].
  - rewrite load_model_clash; [done | done |].
    unfold keyword_clash, ctor_keywords, has_key. simpl.
    destruct Hk as [[v ->]|[v ->]]; by rewrite ?orb_true_r.
  - by rewrite load_model_missing.
  - by rewrite (load_model_check_raises _ _ _ _ _ e).
Qed.

(** C2 (amended): for extra keywords that repeat none of the keywords
    written out in the constructor call, [load_model] logs an error and
    then raises its not-found exception when the existence check answers
    that the checkpoint file is not there; when the check itself raises,
    that exception is the outcome and nothing is logged; the file system
    enters only through that one check, so a missing [config.yaml]
    changes nothing here; when the check finds the checkpoint the
    constructor is called and its outcome is the outcome of [load_model],
    so that, the constructor returning, [load_model] raises if and only
    if the check does not find the checkpoint. *)
Theorem load_model_single_error_path
    (w : World) model_name d device kwargs :
  keyword_clash kwargs = false →
  let ckpt := checkpoint model_name d in
  let kw := ctor_call w model_name d device kwargs in
  (path_exists w ckpt = inr false →
     load_model w model_name d device kwargs
     = (inl (Exception ("model " ++ model_name
                        ++ " not found, please download the model first.")),
        [PathExists ckpt;
         Log "dolphin" ERROR ("model " ++ model_name ++ " not found.")]))
  ∧ (∀ e, path_exists w ckpt = inl e →
     load_model w model_name d device kwargs = (inl e, [PathExists ckpt]))
  ∧ (path_exists w ckpt = inr true →
     load_model w model_name d device kwargs
     = (DolphinSpeech2Text w kw, [PathExists ckpt; Construct kw]))
  ∧ (∀ w' : World,
       cuda_is_available w' = cuda_is_available w →
       DolphinSpeech2Text w' kw = DolphinSpeech2Text w kw →
       path_exists w' ckpt = path_exists w ckpt →
       load_model w' model_name d device kwargs
       = load_model w model_name d device kwargs)
  ∧ (∀ m, DolphinSpeech2Text w kw = inr m →
       raises (load_model w model_name d device kwargs)
       ↔ path_exists w ckpt ≠ inr true).
Proof.
  intros Hc ckpt kw. split; [|split; [|split; [|split]]].
  - intros He. by apply load_model_missing.
  - intros e He. by apply load_model_check_raises.
  - intros He. by apply load_model_found.
  - intros w' Hcuda Hctor Hex.
    assert (Hkw : ctor_call w' model_name d device kwargs = kw).
    { unfold kw, ctor_call, chosen_device. by rewrite Hcuda. }
    destruct (path_exists w ckpt) as [e|[|]] eqn:He.
    + by rewrite !(load_model_check_raises _ _ _ _ _ e) by done.
    + rewrite !load_model_found by done. by rewrite Hkw, Hctor.
    + by rewrite !load_model_missing by done.
  - intros m Hm. unfold raises, outcome.
    destruct (path_exists w ckpt) as [e|[|]] eqn:He.
    + rewrite (load_model_check_raises _ _ _ _ _ e) by done. simpl.
      split; [done | eauto].
    + rewrite load_model_found by done. simpl. fold kw. rewrite Hm.
      split; [intros [e [=]] | done].
    + rewrite load_model_missing by done. simpl. split; [done | eauto].
Qed.

End LoaderFacts.

(** ** The pipeline and the entry point *)

Section PipelineFacts.

Context {path waveform speech2text : Type}.
Variable Path : string → path.
Variable truediv : path → string → path.

#[local] Abbreviation World := (@World path waveform speech2text).
#[local] Abbreviation pyval := (@pyval path waveform).
#[local] Abbreviation Namespace := (@Namespace path).
#[local] Abbreviation transcribe := (transcribe Path truediv).
#[local] Abbreviation cli := (cli Path truediv).
#[local] Abbreviation checkpoint := (checkpoint Path truediv).
#[local] Abbreviation ctor := (transcribe_ctor_call Path truediv).

(** [transcribe] past the existence check, step by step. *)
Lemma transcribe_run (w : World) (args : Namespace) :
  let ckpt := checkpoint (model args) (DirPath (model_dir args)) in
  path_exists w ckpt = inr true →
  transcribe w args
  = match DolphinSpeech2Text w (ctor w args) with
    | inl e => (inl e, [PathExists ckpt; Construct (ctor w args)])
    | inr m =>
        match load_audio w (audio args) with
        | inl e => (inl e, [PathExists ckpt; Construct (ctor w args);
                            LoadAudio (audio args)])
        | inr wav =>
            match model_call w m (call_keywords args wav) with
            | inl e => (inl e, [PathExists ckpt; Construct (ctor w args);
                                LoadAudio (audio args);
                                Invoke m (call_keywords args wav)])
            | inr r => (inr r, [PathExists ckpt; Construct (ctor w args);
                                LoadAudio (audio args);
                                Invoke m (call_keywords args wav);
                                transcript_line r])
            end
        end
    end.
Proof.
  intros ckpt He. unfold transcribe.
  rewrite (load_model_found Path truediv) by done.
  fold ckpt. fold (ctor w args).
  destruct (DolphinSpeech2Text w (ctor w args)) as [e|m]; [reflexivity|].
  unfold call_keywords, transcript_line, keywords. simpl.
  destruct (load_audio w (audio args)) as [e|wav]; [reflexivity|].
  simpl. destruct (model_call w m _) as [e|r]; reflexivity.
Qed.

Lemma transcribe_missing (w : World) (args : Namespace) :
  let ckpt := checkpoint (model args) (DirPath (model_dir args)) in
  path_exists w ckpt = inr false →
  transcribe w args
  = (inl (Exception ("model " ++ model args
                     ++ " not found, please download the model first.")),
     [PathExists ckpt;
      Log "dolphin" ERROR ("model " ++ model args ++ " not found.")]).
Proof.
  intros ckpt He. unfold transcribe.
  by rewrite (load_model_missing Path truediv).
Qed.

Lemma transcribe_check_raises (w : World) (args : Namespace) e :
  let ckpt := checkpoint (model args) (DirPath (model_dir args)) in
  path_exists w ckpt = inl e →
  transcribe w args = (inl e, [PathExists ckpt]).
Proof.
  intros ckpt He. unfold transcribe.
  by rewrite (load_model_check_raises Path truediv _ _ _ _ _ e).
Qed.

Lemma cli_run (w : World) (args : Namespace) :
  parse_args w = inr args →
  cli w
  = (match outcome (transcribe w args) with
     | inl e => inl e
     | inr _ => inr ()
     end,
     [BasicConfig INFO; SetLevel "espnet" ERROR; SetLevel "root" ERROR;
      SetLevel "dolphin" INFO; ParseArgs] ++ trace (transcribe w args))%list.
Proof.
  intros Hp. unfold cli, parser_args, foreign. rewrite Hp.
  unfold outcome, trace. simpl.
  destruct (transcribe w args) as [[e|r] t]; simpl; [reflexivity|].
  by rewrite (right_id_L [] (++)%list).
Qed.

(** C5 (amended): when the checkpoint file exists, the constructor
    returns the model and the loader returns the waveform of the
    positional [audio] argument, [transcribe] invokes that model exactly
    once, with [speech] that waveform and with [lang_sym], [region_sym],
    [predict_time] and [padding_speech] the parsed arguments. *)
Theorem transcribe_invokes_once
    (w : World) (args : Namespace) (m : speech2text) (wav : waveform) :
  path_exists w (checkpoint (model args) (DirPath (model_dir args))) = inr true →
  DolphinSpeech2Text w (ctor w args) = inr m →
  load_audio w (audio args) = inr wav →
  ∃ kw, invocations (trace (transcribe w args)) = [(m, kw)]
        ∧ kw !! "speech" = Some (VWaveform wav)
        ∧ kw !! "lang_sym" = Some (opt_str (lang_sym args))
        ∧ kw !! "region_sym" = Some (opt_str (region_sym args))
        ∧ kw !! "predict_time" = Some (VBool (predict_time args))
        ∧ kw !! "padding_speech" = Some (VBool (padding_speech args)).
Proof.
  intros He Hm Hw. exists (call_keywords args wav).
  rewrite transcribe_run by done. rewrite Hm, Hw.
  split; [by destruct (model_call w m _) | done].
Qed.


(** C6: when the checkpoint file exists, a value returned by
    [transcribe] is the very record returned by the call of the model,
    and the last thing [transcribe] did was to log its [text]; and
    [transcribe] does return that record whenever the constructor, the
    loader and the model return. *)
Theorem transcribe_returns_model_result (w : World) (args : Namespace) :
  path_exists w (checkpoint (model args) (DirPath (model_dir args))) = inr true →
  (∀ r, returns (transcribe w args) r →
     ∃ m wav,
       DolphinSpeech2Text w (ctor w args) = inr m
       ∧ load_audio w (audio args) = inr wav
       ∧ invocations (trace (transcribe w args))
         = [(m, call_keywords args wav)]
       ∧ model_call w m (call_keywords args wav) = inr r
       ∧ last (trace (transcribe w args))
         = Some (Log "dolphin" INFO ("decode result, text: " ++ text r)))
  ∧ (∀ m wav r,
       DolphinSpeech2Text w (ctor w args) = inr m →
       load_audio w (audio args) = inr wav →
       model_call w m (call_keywords args wav) = inr r →
       returns (transcribe w args) r).
Proof.
  intros He. unfold returns, outcome. rewrite transcribe_run by done.
  split.
  - intros r.
    destruct (DolphinSpeech2Text w (ctor w args)) as [e|m]; [done|].
    destruct (load_audio w (audio args)) as [e|wav]; [done|].
    destruct (model_call w m (call_keywords args wav)) as [e|r'] eqn:Hr;
      [done|].
    simpl. intros [= ->]. exists m, wav. by rewrite Hr.
  - intros m wav r -> -> ->. done.
Qed.


(** Every value of the two keyword maps of [transcribe] is one written
    out in the source. *)
Lemma call_keywords_values (args : Namespace) (wav : waveform) k v :
  call_keywords args wav !! k = Some v →
  v ∈ [VWaveform wav; opt_str (lang_sym args); opt_str (region_sym args);
       VBool (predict_time args); VBool (padding_speech args)].
Proof.
  unfold call_keywords. intros H%elem_of_list_to_map_2.
  revert H. rewrite !elem_of_cons, !elem_of_nil.
  intros [[= _ <-]|[[= _ <-]|[[= _ <-]|[[= _ <-]|[[= _ <-]|[]]]]]]; tauto.
Qed.

Lemma ctor_call_values (w : World) (args : Namespace) k v :
  ctor w args !! k = Some v →
  v ∈ [VPath (train_config Path truediv (DirPath (model_dir args)));
       VPath (checkpoint (model args) (DirPath (model_dir args)));
       chosen_device w (opt_str (device args));
       VStr "<asr>"; VBool true].
Proof.
  unfold ctor, ctor_call.
  rewrite (right_id_L ∅ (∪)). intros H%elem_of_list_to_map_2.
  revert H. rewrite !elem_of_cons, !elem_of_nil.
  intros [[= _ <-]|[[= _ <-]|[[= _ <-]|[[= _ <-]|[[= _ <-]|[]]]]]]; tauto.
Qed.

(** What a run of [transcribe] can pass through at all. *)
Lemma passed_through_values (w : World) (args : Namespace) v :
  passed_through (trace (transcribe w args)) v →
  (∃ k, ctor w args !! k = Some v)
  ∨ (∃ wav k, call_keywords args wav !! k = Some v).
Proof.
  intros (kw & k & Hkw & Hk).
  destruct (path_exists w (checkpoint (model args) (DirPath (model_dir args))))
    as [e0|[|]] eqn:He.
  - rewrite (transcribe_check_raises w args e0) in Hkw by done.
    unfold trace in Hkw. simpl in Hkw.
    destruct Hkw as [Hc|[m' Hi]];
      [by apply elem_of_nil in Hc | by apply elem_of_nil in Hi].
  - rewrite transcribe_run in Hkw by done.
    destruct (DolphinSpeech2Text w (ctor w args)) as [e|m];
      [|destruct (load_audio w (audio args)) as [e|wav];
        [|destruct (model_call w m (call_keywords args wav)) as [e|r]]];
      unfold trace in Hkw; simpl in Hkw;
      destruct Hkw as [Hc|[m' Hi]];
      try (apply elem_of_nil in Hc as []); try (apply elem_of_nil in Hi as []);
      try apply list_elem_of_singleton in Hc;
      try apply list_elem_of_singleton in Hi;
      simplify_eq; eauto.
  - rewrite transcribe_missing in Hkw by done.
    unfold trace in Hkw. simpl in Hkw.
    destruct Hkw as [Hc|[m' Hi]];
      [by apply elem_of_nil in Hc | by apply elem_of_nil in Hi].
Qed.

End PipelineFacts.

(** ** The program at work in the sample environment *)

Section SampleRuns.

Import Sample.

#[local] Abbreviation ckpt :=
  (checkpoint Path truediv "small" (DirStr "models")).
#[local] Abbreviation built :=
  (transcribe_ctor_call Path truediv complete args).

#[local] Abbreviation built_on_gpu :=
  (transcribe_ctor_call Path truediv complete args_on_gpu).
#[local] Abbreviation task_given :=
  ({["task_sym" := VStr "<asr>"]} : gmap string value).

Example load_model_passes_resolved_paths_witness :
  built !! "s2t_model_file" = Some (VPath "models/small.pt")
  ∧ built !! "s2t_train_config" = Some (VPath "models/config.yaml").
Proof.
  apply (load_model_passes_resolved_paths Path truediv complete
           "small" (DirStr "models") VNone ∅ built).
  find_event.
Defined.

Example load_model_device_selection_witness :
  ∃ kw, load_model complete "small" (DirStr "models") VNone ∅
        = (DolphinSpeech2Text complete kw, [PathExists ckpt; Construct kw])
        ∧ kw !! "device" = Some (VStr "cpu").
Proof.
  destruct (load_model_device_selection Path truediv complete
              "small" (DirStr "models") VNone ∅)
    as (used & _ & Hnone & _ & Hrun & _).
  rewrite (Hnone eq_refl) in Hrun. apply Hrun; evaluate.
Defined.

Example load_model_repeated_keyword_witness :
  outcome (load_model complete "small" (DirStr "models") VNone task_given)
    = inl (TypeError "DolphinSpeech2Text")
  ∧ constructions
      (trace (load_model complete "small" (DirStr "models") VNone task_given))
    = [].
Proof.
  destruct (load_model_repeated_keyword Path truediv complete
              "small" (DirStr "models") VNone task_given) as (H & _).
  - left. exists (VStr "<asr>"). evaluate.
  - apply H. evaluate.
Defined.

Example load_model_single_error_path_witness :
  load_model checkpoint_missing "small" (DirStr "models") VNone ∅
  = (inl (Exception "model small not found, please download the model first."),
     [PathExists "models/small.pt";
      Log "dolphin" ERROR "model small not found."])
  ∧ outcome (load_model complete "small" (DirStr "models") VNone ∅)
    = inr "cpu"
  ∧ outcome (load_model complete long_name (DirStr "models") VNone ∅)
    = inl (Foreign "OSError" "File name too long").
Proof.
  split; [|split].
  - pose proof (load_model_single_error_path Path truediv checkpoint_missing
                  "small" (DirStr "models") VNone ∅ eq_refl) as H.
    cbv zeta in H. destruct H as (H & _). apply H. evaluate.
  - pose proof (load_model_single_error_path Path truediv complete
                  "small" (DirStr "models") VNone ∅ eq_refl) as H.
    cbv zeta in H. destruct H as (_ & _ & H & _).
    rewrite H by evaluate. evaluate.
  - pose proof (load_model_single_error_path Path truediv complete
                  long_name (DirStr "models") VNone ∅ eq_refl) as H.
    cbv zeta in H. destruct H as (_ & H & _).
    by rewrite (H (Foreign "OSError" "File name too long")) by evaluate.
Defined.

Example transcribe_invokes_once_witness :
  ∃ kw, invocations (trace (transcribe complete args)) = [("cpu", kw)]
        ∧ kw !! "speech" = Some (VWaveform samples)
        ∧ kw !! "lang_sym" = Some (VStr "<zh>")
        ∧ kw !! "region_sym" = Some (VStr "<CN>")
        ∧ kw !! "predict_time" = Some (VBool true)
        ∧ kw !! "padding_speech" = Some (VBool true).
Proof.
  apply (transcribe_invokes_once Path truediv complete args "cpu" samples);
    evaluate.
Defined.


Example transcribe_returns_model_result_witness :
  returns (transcribe complete args) answer.
Proof.
  destruct (transcribe_returns_model_result Path truediv complete args)
    as [_ H]; [evaluate|].
  apply (H "cpu" samples answer); evaluate.
Defined.



(** C2 fails where the checkpoint is in place and [config.yaml] is not:
    the constructor raises, and so does [load_model]. *)
Example load_model_raises_with_checkpoint :
  path_exists config_missing ckpt = inr true
  ∧ outcome (load_model config_missing "small" (DirStr "models") VNone ∅)
    = inl (Foreign "FileNotFoundError" "models/config.yaml")
  ∧ ¬ (raises (load_model config_missing "small" (DirStr "models") VNone ∅)
       ↔ path_exists config_missing ckpt = inr false).
Proof.
  split; [evaluate|]. split; [evaluate|]. intros [H _].
  assert (He : path_exists config_missing ckpt = inr false).
  { apply H. eexists. evaluate. }
  vm_compute in He. discriminate He.
Qed.

(** C5 fails where the checkpoint is in place and the audio file is
    not: the loader raises and the model is never invoked. *)
Example transcribe_without_invocation :
  path_exists audio_missing
    (checkpoint Path truediv (model args) (DirPath (model_dir args)))
    = inr true
  ∧ outcome (transcribe audio_missing args)
    = inl (Foreign "FileNotFoundError" "a.wav")
  ∧ invocations (trace (transcribe audio_missing args)) = [].
Proof. repeat split; evaluate. Qed.


(** C8 fails where the checkpoint is missing: the call with [task_sym]
    among the extra keywords raises the not-found exception, not a
    [TypeError]. *)
Example repeated_keyword_without_checkpoint :
  is_Some (task_given !! "task_sym")
  ∧ outcome (load_model checkpoint_missing "small" (DirStr "models")
               VNone task_given)
    = inl (Exception "model small not found, please download the model first.")
  ∧ ¬ (∃ callee,
         outcome (load_model checkpoint_missing "small" (DirStr "models")
                    VNone task_given)
         = inl (TypeError callee)).
Proof.
  split; [exists (VStr "<asr>"); evaluate|].
  split; [evaluate|]. intros [callee H]. vm_compute in H. discriminate H.
Qed.

End SampleRuns.

(** ** More on the loader *)

Section LoaderMore.

Context {path waveform speech2text : Type}.
Variable Path : string → path.
Variable truediv : path → string → path.

#[local] Abbreviation World := (@World path waveform speech2text).
#[local] Abbreviation pyval := (@pyval path waveform).
#[local] Abbreviation load_model := (load_model Path truediv).
#[local] Abbreviation checkpoint := (checkpoint Path truediv).
#[local] Abbreviation ctor_call := (ctor_call Path truediv).

(** The four shapes of a run of [load_model]. *)
Lemma load_model_cases (w : World) model_name d device kwargs :
  let run := load_model w model_name d device kwargs in
  let ckpt := checkpoint model_name d in
  (∃ e, path_exists w ckpt = inl e ∧ trace run = [PathExists ckpt])
  ∨ (path_exists w ckpt = inr false
   ∧ trace run = [PathExists ckpt;
                  Log "dolphin" ERROR ("model " ++ model_name ++ " not found.")])
  ∨ (path_exists w ckpt = inr true ∧ keyword_clash kwargs = true
     ∧ trace run = [PathExists ckpt])
  ∨ (path_exists w ckpt = inr true ∧ keyword_clash kwargs = false
     ∧ trace run = [PathExists ckpt;
                    Construct (ctor_call w model_name d device kwargs)]).
Proof.
  intros run ckpt. unfold run.
  destruct (path_exists w ckpt) as [e|[|]] eqn:He.
  - left. exists e.
    by rewrite (load_model_check_raises Path truediv _ _ _ _ _ e).
  - destruct (keyword_clash kwargs) eqn:Hc.
    + right; right; left. by rewrite (load_model_clash Path truediv).
    + right; right; right. by rewrite (load_model_found Path truediv).
  - right; left. by rewrite (load_model_missing Path truediv).
Qed.

Lemma ctor_keywords_free (kwargs : gmap string pyval) k v l :
  keyword_clash kwargs = false →
  kwargs !! k = Some v →
  l.*1 = ctor_keywords →
  (list_to_map l : gmap string pyval) !! k = None.
Proof.
  intros Hc Hk Hl. apply not_elem_of_list_to_map_1. rewrite Hl.
  intros Hin. by rewrite (keyword_clash_false kwargs k Hc Hin) in Hk.
Qed.

(** X1: the extra keywords of a call that reaches the constructor are
    handed on with their values, next to the five written out and to
    nothing else. *)
Theorem load_model_forwards_extra_keywords
    (w : World) model_name d device kwargs kw :
  Construct kw ∈ trace (load_model w model_name d device kwargs) →
  (∀ k v, kwargs !! k = Some v → kw !! k = Some v)
  ∧ dom kw = list_to_set ctor_keywords ∪ dom kwargs.
Proof.
  intros (_ & Hc & ->)%(load_model_constructs Path truediv). split.
  - intros k v Hk. unfold ctor_call.
    rewrite lookup_union_r; [done|].
    by apply (ctor_keywords_free kwargs k v).
  - unfold ctor_call. by rewrite dom_union_L, dom_list_to_map_L.
Qed.

(** X2: a constructor call made by [load_model] always carries
    [task_sym="<asr>"] and [predict_time=True]: the two [kwargs.get]
    look-ups can only ever yield their defaults. *)
Theorem load_model_fixed_task_sym_and_predict_time
    (w : World) model_name d device kwargs kw :
  Construct kw ∈ trace (load_model w model_name d device kwargs) →
  kw !! "task_sym" = Some (VStr "<asr>")
  ∧ kw !! "predict_time" = Some (VBool true)
  ∧ kwargs !! "task_sym" = None
  ∧ kwargs !! "predict_time" = None.
Proof.
  intros (_ & Hc & ->)%(load_model_constructs Path truediv).
  unfold ctor_call.
  split; [by apply lookup_union_Some_l|].
  split; [by apply lookup_union_Some_l|].
  split; apply keyword_clash_false; try done; unfold ctor_keywords; set_solver.
Qed.


(** X4: [load_model] calls the logger exactly when the existence check
    answers that the checkpoint file is not there, and then it is
    [logger.error] with the line naming the model, on the logger
    "dolphin"; when the check finds the file or raises, no logging call
    is made, and a run with a logging call never calls the constructor. *)
Theorem load_model_logs_iff_missing
    (w : World) model_name d device kwargs l lvl msg :
  Log l lvl msg ∈ trace (load_model w model_name d device kwargs)
  ↔ path_exists w (checkpoint model_name d) = inr false
    ∧ l = "dolphin" ∧ lvl = ERROR
    ∧ msg = "model " ++ model_name ++ " not found."
    ∧ constructions (trace (load_model w model_name d device kwargs)) = [].
Proof.
  destruct (load_model_cases w model_name d device kwargs)
    as [(e & He & ->)|[(He & ->)|[(He & _ & ->)|(He & _ & ->)]]];
    simpl; rewrite He.
  - rewrite list_elem_of_singleton. split; [intros [=] | intros [[=] _]].
  - rewrite !elem_of_cons, elem_of_nil. split.
    + intros [[=]|[[= -> -> ->]|[]]]. done.
    + intros (_ & -> & -> & -> & _). by right; left.
  - rewrite list_elem_of_singleton. split; [intros [=] | intros [[=] _]].
  - rewrite !elem_of_cons, elem_of_nil. split.
    + intros [[=]|[[=]|[]]].
    + intros [[=] _].
Qed.

End LoaderMore.

(** ** More on the pipeline and the entry point *)

Section PipelineMore.

Context {path waveform speech2text : Type}.
Variable Path : string → path.
Variable truediv : path → string → path.

#[local] Abbreviation World := (@World path waveform speech2text).
#[local] Abbreviation pyval := (@pyval path waveform).
#[local] Abbreviation Namespace := (@Namespace path).
#[local] Abbreviation transcribe := (transcribe Path truediv).
#[local] Abbreviation cli := (cli Path truediv).
#[local] Abbreviation checkpoint := (checkpoint Path truediv).
#[local] Abbreviation ctor := (transcribe_ctor_call Path truediv).

#[local] Set Warnings "-clear-no-such-hyp".

(** Case analysis of a run of [transcribe] along its collaborators. *)
Ltac along_the_run w args :=
  let He := fresh "He" in
  let e0 := fresh "e" in
  destruct (path_exists w (checkpoint (model args) (DirPath (model_dir args))))
    as [e0|[|]] eqn:He;
  [ rewrite (transcribe_check_raises Path truediv w args e0 He)
  | rewrite (transcribe_run Path truediv w args He);
    let e := fresh "e" in
    let m := fresh "m" in
    let wav := fresh "wav" in
    let r := fresh "r" in
    let Hm := fresh "Hm" in
    let Hw := fresh "Hw" in
    let Hr := fresh "Hr" in
    destruct (DolphinSpeech2Text w (ctor w args)) as [e|m] eqn:Hm;
    [|destruct (load_audio w (audio args)) as [e|wav] eqn:Hw;
      [|destruct (model_call w m (call_keywords args wav)) as [e|r] eqn:Hr]]
  | rewrite (transcribe_missing Path truediv w args He) ];
  unfold outcome, trace, returns, transcript_line; simpl.

(** The keyword maps of a run of [transcribe] are the two of the
    vocabulary. *)
Lemma transcribe_construct_inv (w : World) (args : Namespace) kw :
  Construct kw ∈ trace (transcribe w args) → kw = ctor w args.
Proof.
  along_the_run w args; rewrite ?elem_of_cons, ?elem_of_nil; naive_solver.
Qed.

Lemma transcribe_invoke_inv (w : World) (args : Namespace) m kw :
  Invoke m kw ∈ trace (transcribe w args) →
  ∃ wav, kw = call_keywords args wav.
Proof.
  along_the_run w args; rewrite ?elem_of_cons, ?elem_of_nil; naive_solver.
Qed.

(** X5: [transcribe] reads the audio file, the one named by [audio], only
    once the model has been constructed: a missing checkpoint or a
    constructor that raises is reported without the audio being touched. *)
Theorem transcribe_loads_audio_after_model (w : World) (args : Namespace) f :
  LoadAudio f ∈ trace (transcribe w args)
  ↔ f = audio args
    ∧ path_exists w (checkpoint (model args) (DirPath (model_dir args))) = inr true
    ∧ ∃ m, DolphinSpeech2Text w (ctor w args) = inr m.
Proof.
  along_the_run w args; rewrite ?elem_of_cons, ?elem_of_nil;
    split; try naive_solver.
Qed.

(** X6: with the checkpoint in place, [transcribe] raises exactly the
    exception of the first collaborator that raises, the constructor, then
    the loader, then the model, and none of its own. *)
Theorem transcribe_raises_first_failure
    (w : World) (args : Namespace) (e : exn) :
  path_exists w (checkpoint (model args) (DirPath (model_dir args))) = inr true →
  outcome (transcribe w args) = inl e
  ↔ DolphinSpeech2Text w (ctor w args) = inl e
    ∨ ∃ m, DolphinSpeech2Text w (ctor w args) = inr m
           ∧ (load_audio w (audio args) = inl e
              ∨ ∃ wav, load_audio w (audio args) = inr wav
                       ∧ model_call w m (call_keywords args wav) = inl e).
Proof.
  intros He'. along_the_run w args; try congruence.
  - split; [intros [= ->]; by left|].
    intros [H|(m & H & _)]; [congruence | discriminate H].
  - split.
    + intros [= ->]. right. exists m. split; [done | by left].
    + intros [H|(m0 & _ & [H|(wav & H & _)])];
        [discriminate H | congruence | discriminate H].
  - split.
    + intros [= ->]. right. exists m. split; [done|]. right. by exists wav.
    + intros [H|(m0 & Hm0 & [H|(wav0 & Hw0 & H)])];
        [discriminate H | discriminate H |].
      injection Hm0 as <-. injection Hw0 as <-. congruence.
  - split; [discriminate|].
    intros [H|(m0 & Hm0 & [H|(wav0 & Hw0 & H)])];
      [discriminate H | discriminate H |].
    injection Hm0 as <-. injection Hw0 as <-. congruence.
Qed.

(** X7: [transcribe] calls [logger.info] exactly when it returns, on the
    logger "dolphin" and with the transcript of the record it returns;
    whether the record is written is for the levels set on that logger. *)
Theorem transcribe_logs_what_it_returns
    (w : World) (args : Namespace) l msg :
  Log l INFO msg ∈ trace (transcribe w args)
  ↔ l = "dolphin"
    ∧ ∃ r, returns (transcribe w args) r
           ∧ msg = "decode result, text: " ++ text r.
Proof.
  along_the_run w args; rewrite ?elem_of_cons, ?elem_of_nil;
    split; try naive_solver.
Qed.

(** X8: no integer and no float is ever among the keyword values of the
    constructor call or of the model call: whatever the arguments,
    [beam_size] and [maxlenratio] stay in the [Namespace]. *)
Theorem transcribe_forwards_no_number (w : World) (args : Namespace) v :
  passed_through (trace (transcribe w args)) v →
  (∀ n, v ≠ VInt n) ∧ (∀ bits, v ≠ VFloat bits).
Proof.
  intros [[k Hk]|(wav & k & Hk)]%(passed_through_values Path truediv).
  - apply (ctor_call_values Path truediv) in Hk. revert Hk.
    rewrite !elem_of_cons, elem_of_nil. unfold chosen_device.
    destruct (device args); simpl;
      intros [->|[->|[->|[->|[->|[]]]]]]; done.
  - apply (call_keywords_values Path truediv) in Hk. revert Hk.
    rewrite !elem_of_cons, elem_of_nil.
    destruct (lang_sym args), (region_sym args); simpl;
      intros [->|[->|[->|[->|[->|[]]]]]]; done.
Qed.

(** X9: the constructor is called with exactly five keywords, among them
    [predict_time=True] whatever [--predict_time] says, and the model
    with exactly five. *)
Theorem transcribe_keyword_sets (w : World) (args : Namespace) :
  (∀ kw, Construct kw ∈ trace (transcribe w args) →
     dom kw = list_to_set ["s2t_train_config"; "s2t_model_file"; "device";
                           "task_sym"; "predict_time"]
     ∧ kw !! "predict_time" = Some (VBool true))
  ∧ (∀ m kw, Invoke m kw ∈ trace (transcribe w args) →
       dom kw = list_to_set ["speech"; "lang_sym"; "region_sym";
                             "predict_time"; "padding_speech"]
       ∧ kw !! "predict_time" = Some (VBool (predict_time args))).
Proof.
  assert (Hc : dom (ctor w args)
               = list_to_set ["s2t_train_config"; "s2t_model_file"; "device";
                              "task_sym"; "predict_time"]
               ∧ ctor w args !! "predict_time" = Some (VBool true)).
  { unfold ctor, ctor_call. rewrite (right_id_L ∅ (∪)).
    by rewrite dom_list_to_map_L. }
  assert (Hi : ∀ wav : waveform,
            dom (call_keywords args wav)
            = list_to_set ["speech"; "lang_sym"; "region_sym";
                           "predict_time"; "padding_speech"]
            ∧ call_keywords args wav !! "predict_time"
              = Some (VBool (predict_time args))).
  { intros wav. unfold call_keywords. by rewrite dom_list_to_map_L. }
  split.
  - by intros kw ->%transcribe_construct_inv.
  - intros m kw [wav ->]%transcribe_invoke_inv. apply Hi.
Qed.

Lemma cli_failed_parse (w : World) (e : exn) :
  parse_args w = inl e →
  cli w = (inl e,
           [BasicConfig INFO; SetLevel "espnet" ERROR;
            SetLevel "root" ERROR; SetLevel "dolphin" INFO; ParseArgs]).
Proof. intros Hp. unfold cli, parser_args, foreign. by rewrite Hp. Qed.

(** X10: [cli] sets up logging before anything else, in the order of the
    source, and then parses; when the parse fails, its exception is the
    outcome and nothing else has happened: no file looked for, no
    collaborator called. *)
Theorem cli_configures_logging_first (w : World) :
  take 5 (trace (cli w))
    = [BasicConfig INFO; SetLevel "espnet" ERROR; SetLevel "root" ERROR;
       SetLevel "dolphin" INFO; ParseArgs]
  ∧ (∀ e, parse_args w = inl e →
       cli w = (inl e,
                [BasicConfig INFO; SetLevel "espnet" ERROR;
                 SetLevel "root" ERROR; SetLevel "dolphin" INFO; ParseArgs])).
Proof.
  split; [|apply cli_failed_parse].
  destruct (parse_args w) as [e|args] eqn:Hp.
  - by rewrite (cli_failed_parse w e Hp).
  - by rewrite (cli_run Path truediv w args Hp).
Qed.

(** X11: every record logged in a run of [cli] goes to the logger
    "dolphin", and comes after [cli] has set the level of that logger to
    [INFO], the fourth thing it does. *)
Theorem cli_logs_after_set_level (w : World) i l lvl msg :
  trace (cli w) !! i = Some (Log l lvl msg) →
  l = "dolphin"
  ∧ (3 < i)%nat
  ∧ trace (cli w) !! 3%nat = Some (SetLevel "dolphin" INFO).
Proof.
  destruct (parse_args w) as [e|args] eqn:Hp.
  - rewrite (cli_failed_parse w e Hp). unfold trace. simpl. intros H.
    do 6 (destruct i as [|i]; simpl in H; try discriminate H).
  - rewrite (cli_run Path truediv w args Hp).
    along_the_run w args; intros H;
      do 11 (try (destruct i as [|i]; simpl in H; try discriminate H));
      simplify_eq; (split; [done | split; [lia | done]]).
Qed.

End PipelineMore.

(** ** More on [str2bool] *)

Section Str2boolMore.

Lemma same_letter_lower (a b : ascii) :
  same_letter a b = true → lower_ascii a = lower_ascii b.
Proof.
  unfold same_letter. rewrite !orb_true_iff, !andb_true_iff, !N.eqb_eq.
  assert (Hup : ∀ c d : ascii,
            is_upper c = true → (N_of_ascii c + 32)%N = N_of_ascii d →
            lower_ascii c = lower_ascii d).
  { intros c d Hc E. unfold lower_ascii. rewrite Hc.
    assert (Hd : is_upper d = false).
    { unfold is_upper in *. apply andb_true_iff in Hc as [H1 H2].
      apply N.leb_le in H1, H2. rewrite <- E. apply andb_false_iff. right.
      apply N.leb_gt. lia. }
    rewrite Hd, E. apply ascii_N_embedding. }
  intros [[E|[Ha E]]|[Hb E]].
  - by apply Ascii.eqb_eq in E as ->.
  - by apply Hup.
  - symmetry. by apply Hup.
Qed.

Lemma caseless_eq_lower (s t : string) :
  caseless_eq s t = true → lower s = lower t.
Proof.
  revert t. induction s as [|a s IH]; intros [|b t]; simpl; try done.
  intros [Hab Hst]%andb_true_iff.
  by rewrite (same_letter_lower a b Hab), (IH t Hst).
Qed.

(** X12: two strings that differ only in the case of their letters get
    the same answer from [str2bool], be it a truth value or a
    [ValueError], which carries the lower-cased text. *)
Theorem str2bool_ignores_case (s t : string) :
  caseless_eq s t = true → str2bool s = str2bool t.
Proof.
  intros E%caseless_eq_lower. unfold str2bool, strtobool. by rewrite E.
Qed.

End Str2boolMore.

(** ** The command line *)

Section CommandLineFacts.

Context {path waveform speech2text : Type}.
Variable Path : string → path.
Variable truediv : path → string → path.
Variable int : string → exn + Z.
Variable float : string → exn + Z.

#[local] Abbreviation World := (@World path waveform speech2text).
#[local] Abbreviation Namespace := (@Namespace path).
#[local] Abbreviation parse_command_line :=
  (parse_command_line Path int float).
#[local] Abbreviation cli := (cli Path truediv).

#[local] Set Warnings "-clear-no-such-hyp".

#[local] Abbreviation refused := (refused int float).

Lemma elem_of_occurrences f v (given : list argument) :
  v ∈ occurrences f given ↔ Value f v ∈ given.
Proof.
  unfold occurrences. rewrite list_elem_of_omap. split.
  - intros ([g u|] & Hin & H); [|done]. by case_decide; simplify_eq.
  - intros Hin. exists (Value f v). split; [done|]. by case_decide.
Qed.

(** Where a parse is interrupted, and by what. *)
Lemma interrupted_Some given e :
  interrupted int float given = Some e →
  e = usage_error ∨ (e = help_exit ∧ Help ∈ given).
Proof.
  induction given as [|[f v|] given IH]; simpl; [done| |].
  - destruct (refused f v).
    + intros [= <-]. by left.
    + intros [H|[H Hin]]%IH; [by left|]. right. split; [done|].
      by apply list_elem_of_further.
  - intros [= <-]. right. split; [done | apply list_elem_of_here].
Qed.

Lemma interrupted_at_refused before f v after :
  Help ∉ before → refused f v = true →
  interrupted int float (before ++ Value f v :: after) = Some usage_error.
Proof.
  intros Hh Hr. induction before as [|[g u|] before IH]; simpl.
  - by rewrite Hr.
  - destruct (refused g u); [done|]. apply IH.
    intros Hin. apply Hh. by apply list_elem_of_further.
  - destruct Hh. apply list_elem_of_here.
Qed.

Lemma interrupted_at_help before after :
  (∀ f v, Value f v ∈ before → refused f v = false) →
  interrupted int float (before ++ Help :: after) = Some help_exit.
Proof.
  intros Hb. induction before as [|[g u|] before IH]; simpl; [done| |done].
  rewrite (Hb g u) by apply list_elem_of_here. apply IH.
  intros f v Hin. apply Hb. by apply list_elem_of_further.
Qed.

Lemma interrupted_None_no_help given :
  interrupted int float given = None → Help ∉ given.
Proof.
  induction given as [|[f v|] given IH]; simpl.
  - intros _. apply not_elem_of_nil.
  - destruct (refused f v); [done|]. intros H%IH.
    apply not_elem_of_cons. by split.
  - done.
Qed.

Lemma convert_each_all {A} (conv : string → exn + A) l l' v :
  convert_each conv l = inr l' → v ∈ l → ∃ a, conv v = inr a.
Proof.
  revert l'. induction l as [|u l IH]; intros l' H Hin; simpl in H.
  - by apply elem_of_nil in Hin.
  - destruct (conv u) as [e|a] eqn:Hu; [done|].
    destruct (convert_each conv l) as [e|l0]; [done|].
    apply elem_of_cons in Hin as [->|Hin]; eauto.
Qed.

Lemma convert_each_last {A} (conv : string → exn + A) l l' v :
  convert_each conv l = inr l' → last l = Some v →
  ∃ a, conv v = inr a ∧ last l' = Some a.
Proof.
  revert l'. induction l as [|u l IH]; intros l' H Hl; simpl in H; [done|].
  destruct (conv u) as [e|a] eqn:Hu; [done|].
  destruct (convert_each conv l) as [e|l0] eqn:Hl0; [done|].
  injection H as <-. destruct l as [|u' l].
  - simpl in Hl0. injection Hl0 as <-. simpl in Hl. injection Hl as <-. eauto.
  - destruct (IH l0 eq_refl Hl) as (b & Hb & Hlast).
    exists b. split; [done|]. simpl in Hl0.
    destruct (conv u'); [done|]. destruct (convert_each conv l); [done|].
    by injection Hl0 as <-.
Qed.

Lemma convert_each_none {A} (conv : string → exn + A) l l' :
  convert_each conv l = inr l' → l = [] → l' = [].
Proof. intros H ->. simpl in H. by injection H as <-. Qed.

Lemma convert_each_refused {A} (conv : string → exn + A) l v e :
  v ∈ l → conv v = inl e → convert_each conv l = inl usage_error.
Proof.
  intros Hin Hv. destruct (convert_each conv l) as [e'|l'] eqn:H.
  - clear Hin Hv. revert e' H. induction l as [|u l IH]; intros e' H;
      simpl in H; [done|].
    destruct (conv u); [by injection H as <-|].
    destruct (convert_each conv l) as [e0|l0]; [|done].
    injection H as <-. by rewrite (IH e0 eq_refl).
  - destruct (convert_each_all conv l l' v H Hin) as [a Ha]. congruence.
Qed.

(** What a successful parse was made of. *)
Lemma parse_command_line_inr positionals given (ns : Namespace) :
  parse_command_line positionals given = inr ns →
  ∃ a d nl ps pt bs ml,
    positionals = [a]
    ∧ last (occurrences ModelDir given) = Some d
    ∧ convert_each str2bool (occurrences NormalizeLength given) = inr nl
    ∧ convert_each str2bool (occurrences PaddingSpeech given) = inr ps
    ∧ convert_each str2bool (occurrences PredictTime given) = inr pt
    ∧ convert_each int (occurrences BeamSize given) = inr bs
    ∧ convert_each float (occurrences Maxlenratio given) = inr ml
    ∧ ns = {| audio := a;
              model := default "small" (last (occurrences Model given));
              model_dir := Path d;
              lang_sym := last (occurrences LangSym given);
              region_sym := last (occurrences RegionSym given);
              dtype := default "float32" (last (occurrences Dtype given));
              device := last (occurrences Device given);
              normalize_length := default false (last nl);
              padding_speech := default true (last ps);
              predict_time := default true (last pt);
              beam_size := default 5%Z (last bs);
              maxlenratio := default 0%Z (last ml) |}.
Proof.
  unfold parse_command_line.
  destruct (interrupted int float given); [done|].
  destruct positionals as [|a [|a' pos]]; try done.
  destruct (last (occurrences ModelDir given)) as [d|]; [|done].
  destruct (convert_each str2bool (occurrences NormalizeLength given))
    as [?|nl]; [done|].
  destruct (convert_each str2bool (occurrences PaddingSpeech given))
    as [?|ps]; [done|].
  destruct (convert_each str2bool (occurrences PredictTime given))
    as [?|pt]; [done|].
  destruct (convert_each int (occurrences BeamSize given)) as [?|bs]; [done|].
  destruct (convert_each float (occurrences Maxlenratio given))
    as [?|ml]; [done|].
  intros [= <-]. by exists a, d, nl, ps, pt, bs, ml.
Qed.

Lemma parse_command_line_no_help positionals given (ns : Namespace) :
  parse_command_line positionals given = inr ns → Help ∉ given.
Proof.
  unfold parse_command_line.
  destruct (interrupted int float given) eqn:Hi; [done|].
  intros _. by apply interrupted_None_no_help.
Qed.

(** A parse that does not succeed ends in the usage error or, at
    [--help], with the help text. *)
Lemma parse_command_line_inl positionals given e :
  parse_command_line positionals given = inl e →
  e = usage_error ∨ (e = help_exit ∧ Help ∈ given).
Proof.
  unfold parse_command_line.
  destruct (interrupted int float given) as [e'|] eqn:Hi.
  - intros [= <-]. by apply interrupted_Some.
  - intros H. left. revert H.
    repeat match goal with
           | |- context [match ?x with _ => _ end] => destruct x
           end; congruence.
Qed.

Lemma parse_command_line_inl_no_help positionals given e :
  Help ∉ given →
  parse_command_line positionals given = inl e → e = usage_error.
Proof. by intros Hh [H|[_ H]]%parse_command_line_inl. Qed.

(** X13: a parse succeeds only for exactly one positional argument, which
    becomes [audio], with [--model_dir] given, whose last value becomes
    [model_dir] as a [Path], and without [-h] or [--help] on the command
    line.  On a command line without [-h] and [--help], a parse without
    [--model_dir], without a positional argument or with more than one
    ends in the usage error, [SystemExit(2)].  With [-h] or [--help], and
    no refused value before it, the parse ends in [SystemExit(0)],
    whatever the positional arguments are and with or without
    [--model_dir].  Every parse that does not succeed ends in one of the
    two, and in [SystemExit(0)] only with [-h] or [--help] given. *)
Theorem parse_requires_audio_and_model_dir positionals given :
  (∀ ns : Namespace,
     parse_command_line positionals given = inr ns →
     positionals = [audio ns]
     ∧ (Help ∉ given)
     ∧ ∃ d, last (occurrences ModelDir given) = Some d
            ∧ model_dir ns = Path d)
  ∧ (Help ∉ given → occurrences ModelDir given = [] →
     parse_command_line positionals given = inl usage_error)
  ∧ (Help ∉ given → List.length positionals ≠ 1%nat →
     parse_command_line positionals given = inl usage_error)
  ∧ (∀ before after,
       given = (before ++ Help :: after)%list →
       (∀ f v, Value f v ∈ before → refused f v = false) →
       parse_command_line positionals given = inl help_exit)
  ∧ (∀ e, parse_command_line positionals given = inl e →
          e = usage_error ∨ (e = help_exit ∧ Help ∈ given)).
Proof.
  split; [|split; [|split; [|split]]].
  - intros ns Hp. pose proof (parse_command_line_no_help _ _ _ Hp) as Hh.
    apply parse_command_line_inr in Hp
      as (a & d & nl & ps & pt & bs & ml & -> & Hd & _ & _ & _ & _ & _ & ->).
    split; [done|]. split; [done|]. by exists d.
  - intros Hh Hnone.
    destruct (parse_command_line positionals given) as [e|ns] eqn:Hp.
    + by rewrite (parse_command_line_inl_no_help _ _ _ Hh Hp).
    + apply parse_command_line_inr in Hp
        as (a & d & nl & ps & pt & bs & ml & _ & Hd & _).
      by rewrite Hnone in Hd.
  - intros Hh Hlen.
    destruct (parse_command_line positionals given) as [e|ns] eqn:Hp.
    + by rewrite (parse_command_line_inl_no_help _ _ _ Hh Hp).
    + apply parse_command_line_inr in Hp
        as (a & d & nl & ps & pt & bs & ml & -> & _).
      by destruct Hlen.
  - intros before after -> Hb. unfold parse_command_line.
    by rewrite (interrupted_at_help _ _ Hb).
  - apply parse_command_line_inl.
Qed.

(** X14: in a parse that succeeds, the last value given to an option is
    the one that counts: kept as it is for the options of type [str],
    and for the others it is what [str2bool], [int] or [float] makes of
    it. *)
Theorem parse_last_value_wins positionals given (ns : Namespace) v :
  parse_command_line positionals given = inr ns →
  (last (occurrences Model given) = Some v → model ns = v)
  ∧ (last (occurrences LangSym given) = Some v → lang_sym ns = Some v)
  ∧ (last (occurrences RegionSym given) = Some v → region_sym ns = Some v)
  ∧ (last (occurrences Dtype given) = Some v → dtype ns = v)
  ∧ (last (occurrences Device given) = Some v → device ns = Some v)
  ∧ (last (occurrences NormalizeLength given) = Some v →
     str2bool v = inr (normalize_length ns))
  ∧ (last (occurrences PaddingSpeech given) = Some v →
     str2bool v = inr (padding_speech ns))
  ∧ (last (occurrences PredictTime given) = Some v →
     str2bool v = inr (predict_time ns))
  ∧ (last (occurrences BeamSize given) = Some v →
     int v = inr (beam_size ns))
  ∧ (last (occurrences Maxlenratio given) = Some v →
     float v = inr (maxlenratio ns)).
Proof.
  intros (a & d & nl & ps & pt & bs & ml & -> & Hd & Hnl & Hps & Hpt & Hbs
          & Hml & ->)%parse_command_line_inr. simpl.
  repeat split; try (by intros ->).
  - intros Hv. destruct (convert_each_last _ _ _ _ Hnl Hv) as (b & -> & ->).
    done.
  - intros Hv. destruct (convert_each_last _ _ _ _ Hps Hv) as (b & -> & ->).
    done.
  - intros Hv. destruct (convert_each_last _ _ _ _ Hpt Hv) as (b & -> & ->).
    done.
  - intros Hv. destruct (convert_each_last _ _ _ _ Hbs Hv) as (b & -> & ->).
    done.
  - intros Hv. destruct (convert_each_last _ _ _ _ Hml Hv) as (b & -> & ->).
    done.
Qed.

(** X15: in a parse that succeeds, an option that was not given has the
    default of its [add_argument]. *)
Theorem parse_defaults positionals given (ns : Namespace) :
  parse_command_line positionals given = inr ns →
  (occurrences Model given = [] → model ns = "small")
  ∧ (occurrences LangSym given = [] → lang_sym ns = None)
  ∧ (occurrences RegionSym given = [] → region_sym ns = None)
  ∧ (occurrences Dtype given = [] → dtype ns = "float32")
  ∧ (occurrences Device given = [] → device ns = None)
  ∧ (occurrences NormalizeLength given = [] → normalize_length ns = false)
  ∧ (occurrences PaddingSpeech given = [] → padding_speech ns = true)
  ∧ (occurrences PredictTime given = [] → predict_time ns = true)
  ∧ (occurrences BeamSize given = [] → beam_size ns = 5%Z)
  ∧ (occurrences Maxlenratio given = [] → maxlenratio ns = 0%Z).
Proof.
  intros (a & d & nl & ps & pt & bs & ml & -> & Hd & Hnl & Hps & Hpt & Hbs
          & Hml & ->)%parse_command_line_inr. simpl.
  repeat split; try (by intros ->).
  - intros Hn. by rewrite (convert_each_none _ _ _ Hnl Hn).
  - intros Hn. by rewrite (convert_each_none _ _ _ Hps Hn).
  - intros Hn. by rewrite (convert_each_none _ _ _ Hpt Hn).
  - intros Hn. by rewrite (convert_each_none _ _ _ Hbs Hn).
  - intros Hn. by rewrite (convert_each_none _ _ _ Hml Hn).
Qed.

(** X16: a value that its converter refuses, with no [-h] or [--help]
    before it on the command line, ends the parse in the usage error,
    [SystemExit(2)], whatever follows it, also a later value of the same
    option that would have been accepted, and also a later [--help]: a
    word that [str2bool] does not know for one of the three truth-valued
    options, a text that [int] refuses for [--beam_size], one that
    [float] refuses for [--maxlenratio].  After [-h] or [--help], with no
    refused value before it, no value is converted: the parse has ended
    in [SystemExit(0)]. *)
Theorem parse_refuses_bad_value positionals before f v after e :
  (f ∈ [NormalizeLength; PaddingSpeech; PredictTime] ∧ str2bool v = inl e)
  ∨ (f = BeamSize ∧ int v = inl e)
  ∨ (f = Maxlenratio ∧ float v = inl e) →
  (Help ∉ before →
   parse_command_line positionals (before ++ Value f v :: after)%list
   = inl usage_error)
  ∧ ((∀ g u, Value g u ∈ before → refused g u = false) →
     parse_command_line positionals
       (before ++ Help :: Value f v :: after)%list
     = inl help_exit).
Proof.
  intros Hbad. split.
  - intros Hh.
    assert (Hr : refused f v = true).
    { destruct Hbad as [[Hf Hv]|[[-> Hv]|[-> Hv]]].
      - rewrite !elem_of_cons, elem_of_nil in Hf.
        destruct Hf as [->|[->|[->|[]]]]; simpl; by rewrite Hv.
      - simpl. by rewrite Hv.
      - simpl. by rewrite Hv. }
    unfold parse_command_line.
    by rewrite (interrupted_at_refused _ _ _ _ Hh Hr).
  - intros Hb. unfold parse_command_line.
    by rewrite (interrupted_at_help _ _ Hb).
Qed.

(** X17: from the command line to the model: in a run of [cli] on a
    parsed command line, every call of the model carries as [predict_time]
    and [padding_speech] what [str2bool] makes of the last value given to
    [--predict_time] and [--padding_speech], and [True] for the one not
    given. *)
Theorem cli_truth_options_reach_the_model
    (w : World) positionals given m kw :
  parse_args w = parse_command_line positionals given →
  Invoke m kw ∈ trace (cli w) →
  (∀ v, last (occurrences PredictTime given) = Some v →
        ∃ b, str2bool v = inr b ∧ kw !! "predict_time" = Some (VBool b))
  ∧ (occurrences PredictTime given = [] →
     kw !! "predict_time" = Some (VBool true))
  ∧ (∀ v, last (occurrences PaddingSpeech given) = Some v →
          ∃ b, str2bool v = inr b ∧ kw !! "padding_speech" = Some (VBool b))
  ∧ (occurrences PaddingSpeech given = [] →
     kw !! "padding_speech" = Some (VBool true)).
Proof.
  intros Hp Hin.
  destruct (parse_command_line positionals given) as [e|ns] eqn:Hns.
  - rewrite (cli_failed_parse Path truediv w e Hp) in Hin.
    unfold trace in Hin. simpl in Hin.
    rewrite !elem_of_cons, elem_of_nil in Hin.
    by destruct Hin as [?|[?|[?|[?|[?|[]]]]]].
  - assert (Hkw : ∃ wav, kw = call_keywords ns wav).
    { rewrite (cli_run Path truediv w ns Hp) in Hin.
      unfold trace at 1 in Hin. simpl in Hin.
      rewrite !elem_of_cons in Hin.
      destruct Hin as [?|[?|[?|[?|[?|Hin]]]]]; try done.
      by apply (transcribe_invoke_inv Path truediv w ns m). }
    destruct Hkw as [wav ->].
    apply parse_command_line_inr in Hns
      as (a & d & nl & ps & pt & bs & ml & _ & _ & _ & Hps & Hpt & _ & _
          & ->).
    unfold call_keywords. simpl. repeat split.
    + intros v Hv.
      destruct (convert_each_last _ _ _ _ Hpt Hv) as (b & Hb & ->).
      by exists b.
    + intros Hn. by rewrite (convert_each_none _ _ _ Hpt Hn).
    + intros v Hv.
      destruct (convert_each_last _ _ _ _ Hps Hv) as (b & Hb & ->).
      by exists b.
    + intros Hn. by rewrite (convert_each_none _ _ _ Hps Hn).
Qed.

End CommandLineFacts.

(** ** More runs in the sample environment *)

Section MoreRuns.

Import Sample.

#[local] Abbreviation built_with_beam_size :=
  (ctor_call Path truediv complete "small" (DirStr "models") VNone
     with_beam_size).

Example load_model_forwards_extra_keywords_witness :
  built_with_beam_size !! "beam_size" = Some (VInt 10).
Proof.
  destruct (load_model_forwards_extra_keywords Path truediv complete
              "small" (DirStr "models") VNone with_beam_size
              built_with_beam_size) as [H _]; [find_event|].
  apply H. evaluate.
Defined.

Example load_model_fixed_task_sym_and_predict_time_witness :
  built_with_beam_size !! "task_sym" = Some (VStr "<asr>")
  ∧ built_with_beam_size !! "predict_time" = Some (VBool true)
  ∧ with_beam_size !! "task_sym" = None
  ∧ with_beam_size !! "predict_time" = None.
Proof.
  apply (load_model_fixed_task_sym_and_predict_time Path truediv complete
           "small" (DirStr "models") VNone with_beam_size).
  find_event.
Defined.

Example transcribe_raises_first_failure_witness :
  outcome (transcribe audio_missing args)
  = inl (Foreign "FileNotFoundError" "a.wav").
Proof.
  apply (transcribe_raises_first_failure Path truediv audio_missing args);
    [evaluate|].
  right. exists "cpu". split; [evaluate|]. left. evaluate.
Defined.

Example transcribe_forwards_no_number_witness :
  (∀ n, (VStr "<asr>" : value) ≠ VInt n)
  ∧ (∀ bits, (VStr "<asr>" : value) ≠ VFloat bits).
Proof.
  apply (transcribe_forwards_no_number Path truediv complete args).
  exists (transcribe_ctor_call Path truediv complete args), "task_sym".
  split; [left; apply list_elem_of_here | evaluate].
Defined.

Example cli_logs_after_set_level_witness :
  "dolphin" = "dolphin"
  ∧ (3 < 9)%nat
  ∧ trace (cli complete) !! 3%nat = Some (SetLevel "dolphin" INFO).
Proof.
  apply (cli_logs_after_set_level Path truediv complete 9 "dolphin" INFO
           "decode result, text: <zh><CN><asr><0.00> hello<1.20>").
  evaluate.
Defined.

Example str2bool_ignores_case_witness : str2bool "YeS" = str2bool "yes".
Proof. apply str2bool_ignores_case. reflexivity. Defined.

Example parse_last_value_wins_witness :
  str2bool "No" = inr (predict_time parsed).
Proof.
  destruct (parse_last_value_wins Path int float ["a.wav"] command_line
              parsed "No") as (_ & _ & _ & _ & _ & _ & _ & H & _);
    [evaluate|].
  apply H. evaluate.
Defined.

Example parse_defaults_witness :
  model parsed = "small" ∧ dtype parsed = "float32"
  ∧ padding_speech parsed = true.
Proof.
  destruct (parse_defaults Path int float ["a.wav"] command_line parsed)
    as (Hm & _ & _ & Hd & _ & _ & Hp & _); [evaluate|].
  split; [apply Hm; evaluate|]. split; [apply Hd; evaluate|].
  apply Hp. evaluate.
Defined.

Example parse_refuses_bad_value_witness :
  parse_command_line ["a.wav"]
    [Value ModelDir "models"; Value PredictTime "maybe";
     Value PredictTime "yes"]
  = inl usage_error
  ∧ parse_command_line ["a.wav"]
      [Value ModelDir "models"; Help; Value PredictTime "maybe";
       Value PredictTime "yes"]
    = inl help_exit.
Proof.
  destruct (parse_refuses_bad_value Path int float ["a.wav"]
              [Value ModelDir "models"] PredictTime "maybe"
              [Value PredictTime "yes"] (ValueError "maybe")) as [H1 H2].
  - left. split; [|evaluate].
    apply list_elem_of_further, list_elem_of_further, list_elem_of_here.
  - split.
    + apply H1. by intros [=]%list_elem_of_singleton.
    + apply H2. intros g u [= -> ->]%list_elem_of_singleton. reflexivity.
Defined.

Example cli_truth_options_reach_the_model_witness :
  ∃ b, str2bool "No" = inr b
       ∧ call_keywords parsed samples !! "predict_time" = Some (VBool b).
Proof.
  destruct (cli_truth_options_reach_the_model Path truediv int float
              (started more_options) ["a.wav"] command_line "cpu"
              (call_keywords parsed samples)) as (H & _);
    [reflexivity | find_event |].
  apply H. evaluate.
Defined.

End MoreRuns.
